(** * Verification of the cricket ball-tracking physics core

    Shallow embedding of [src/services/physics.ts] (position estimator
    [reconstruct3D], trajectory predictor [predictTrajectory], impact resolver
    [checkWicketImpact]) and of the trajectory loop of [generateSimulatedData]
    in [src/components/TrajectoryView.tsx].

    Numbers.  A JavaScript [number] is modelled by [num]: an exact rational,
    or one of the three IEEE special values [NaN], [+Infinity], [-Infinity].
    The special values follow the IEEE rules the source relies on (a
    comparison with [NaN] is false, [0/0] is [NaN], [a/0] is infinite), and
    the two zeros are identified.  The operations of [Num] are exact on
    finite values.  The trajectory predictor is also embedded with every
    operation rounded to double precision ([Binary64], [Rounded],
    [predictTrajectory64]): what is proved of its timestamps, which the
    rounding governs, is proved of that embedding, and what is proved of
    its heights is proved of both. *)

From Stdlib Require Import QArith Qabs Qround Qpower Lqa Lia List Bool ZArith.
From Stdlib Require String.
Import ListNotations.

Local Open Scope Q_scope.

(** ** JavaScript numbers *)

Module Num.

Inductive num : Type :=
| NaN
| PInf
| NInf
| Fin (q : Q).

(** A finite value is kept in lowest terms, so that a computed number has one
    representation. *)
Definition fin (q : Q) : num := Fin (Qred q).

(** The sign of a rational, as a comparison with zero. *)
Definition sgn (q : Q) : comparison := q ?= 0.

Definition neg (a : num) : num :=
  match a with
  | NaN => NaN
  | PInf => NInf
  | NInf => PInf
  | Fin q => fin (- q)
  end.

Definition add (a b : num) : num :=
  match a, b with
  | NaN, _ | _, NaN => NaN
  | PInf, NInf | NInf, PInf => NaN
  | PInf, _ | _, PInf => PInf
  | NInf, _ | _, NInf => NInf
  | Fin p, Fin q => fin (p + q)
  end.

Definition sub (a b : num) : num :=
  match a, b with
  | NaN, _ | _, NaN => NaN
  | PInf, PInf | NInf, NInf => NaN
  | PInf, _ | _, NInf => PInf
  | NInf, _ | _, PInf => NInf
  | Fin p, Fin q => fin (p - q)
  end.

(** An infinity multiplied by a value of the given sign. *)
Definition scale_inf (positive : bool) (s : comparison) : num :=
  match s with
  | Eq => NaN
  | Gt => if positive then PInf else NInf
  | Lt => if positive then NInf else PInf
  end.

Definition mul (a b : num) : num :=
  match a, b with
  | NaN, _ | _, NaN => NaN
  | PInf, PInf | NInf, NInf => PInf
  | PInf, NInf | NInf, PInf => NInf
  | PInf, Fin q | Fin q, PInf => scale_inf true (sgn q)
  | NInf, Fin q | Fin q, NInf => scale_inf false (sgn q)
  | Fin p, Fin q => fin (p * q)
  end.

(** Division.  A finite value over an infinity is zero; over zero it is the
    infinity of the sign of the dividend, and [0/0] is [NaN]. *)
Definition div (a b : num) : num :=
  match a, b with
  | NaN, _ | _, NaN => NaN
  | (PInf | NInf), (PInf | NInf) => NaN
  | PInf, Fin q => match sgn q with Lt => NInf | _ => PInf end
  | NInf, Fin q => match sgn q with Lt => PInf | _ => NInf end
  | Fin _, (PInf | NInf) => Fin 0
  | Fin p, Fin q =>
      match sgn q with
      | Eq => match sgn p with Eq => NaN | Gt => PInf | Lt => NInf end
      | _ => fin (p / q)
      end
  end.

(** [Math.abs]. *)
Definition abs (a : num) : num :=
  match a with
  | NaN => NaN
  | PInf | NInf => PInf
  | Fin q => fin (Qabs q)
  end.

(** The relational operators; each is false as soon as an operand is [NaN]. *)
Definition cmp (a b : num) : option comparison :=
  match a, b with
  | NaN, _ | _, NaN => None
  | PInf, PInf | NInf, NInf => Some Eq
  | PInf, _ | _, NInf => Some Gt
  | NInf, _ | _, PInf => Some Lt
  | Fin p, Fin q => Some (p ?= q)
  end.

Definition ltb (a b : num) : bool :=
  match cmp a b with Some Lt => true | _ => false end.
Definition leb (a b : num) : bool :=
  match cmp a b with Some Lt | Some Eq => true | _ => false end.
Definition gtb (a b : num) : bool :=
  match cmp a b with Some Gt => true | _ => false end.
Definition geb (a b : num) : bool :=
  match cmp a b with Some Gt | Some Eq => true | _ => false end.
(** [===] on numbers. *)
Definition eqb (a b : num) : bool :=
  match cmp a b with Some Eq => true | _ => false end.

Definition is_finite (a : num) : bool :=
  match a with Fin _ => true | _ => false end.

(** A numeric literal of the source, written as a decimal. *)
Definition lit (q : Q) : num := fin q.

End Num.

Import Num.

Declare Scope num_scope.
Delimit Scope num_scope with num.
Bind Scope num_scope with num.
Infix "+" := add : num_scope.
Infix "-" := sub : num_scope.
Infix "*" := mul : num_scope.
Infix "/" := div : num_scope.
Notation "- a" := (neg a) : num_scope.
Infix "<?" := ltb : num_scope.
Infix "<=?" := leb : num_scope.
Infix ">?" := gtb : num_scope.
Infix ">=?" := geb : num_scope.
Infix "=?" := eqb : num_scope.
Local Open Scope num_scope.

(** ** Data model ([physics.ts], lines 5-31) *)

Record Vector3D : Type := mkVector3D {
  vec_x : num;  (* x: lateral (left/right) *)
  vec_y : num;  (* y: vertical (height) *)
  vec_z : num   (* z: longitudinal (pitch length) *)
}.

(** [TrajectoryPoint extends Vector3D] with a timestamp and an optional
    velocity. *)
Record TrajectoryPoint : Type := mkPoint {
  x : num;
  y : num;
  z : num;
  t : num;
  velocity : option Vector3D
}.

Definition PITCH_LENGTH : num := lit 20.12.
Definition STUMP_HEIGHT : num := lit 0.711.
Definition STUMP_WIDTH : num := lit 0.2286.
Definition STUMP_RADIUS : num := lit 0.019.
Definition BAIL_HEIGHT : num := lit 0.013.
Definition GRAVITY : num := lit 9.81.

Record WicketVolume : Type := mkWicketVolume {
  vol_min : Vector3D;
  vol_max : Vector3D
}.

Definition WICKET_VOLUME : WicketVolume :=
  {| vol_min := mkVector3D (- STUMP_WIDTH / lit 2) (lit 0)
                           (PITCH_LENGTH - lit 0.02);
     vol_max := mkVector3D (STUMP_WIDTH / lit 2) (STUMP_HEIGHT + BAIL_HEIGHT)
                           (PITCH_LENGTH + lit 0.02) |}.

(** ** How a call ends

    Arithmetic on numbers never raises in JavaScript; the one operation of
    the module that can is the property access [p.t] on an array slot that
    does not exist.  A [while] loop may also run for ever, which the
    embedding bounds by a fuel argument. *)
Inductive outcome (A : Type) : Type :=
| Returned (v : A)   (* the call returns [v] *)
| Thrown             (* the call raises an exception *)
| OutOfFuel.         (* the loop was still running when the fuel ran out *)
Arguments Returned {A} v.
Arguments Thrown {A}.
Arguments OutOfFuel {A}.

(** ** Position estimator ([physics.ts], lines 37-60) *)

Definition reconstruct3D (pixelX pixelY frameWidth frameHeight time : num)
  : outcome TrajectoryPoint :=
  let nx := (pixelX / frameWidth) * lit 2 - lit 1 in
  let ny := lit 1 - (pixelY / frameHeight) * lit 2 in
  let z := (time / lit 0.5) * PITCH_LENGTH in
  let x := nx * (z * lit 0.1) in
  let y := (ny + lit 0.5) * lit 2 in
  Returned {| x := x; y := y; z := z; t := time; velocity := None |}.

(** ** Trajectory predictor ([physics.ts], lines 65-109) *)

(** The variables the [while] loop updates. *)
Record PredictState : Type := mkPredictState {
  currentTime : num;
  currX : num;
  currY : num;
  currZ : num;
  currVy : num;
  predictions : list TrajectoryPoint
}.

Section PredictLoop.

(** What the loop reads but never writes: the estimated lateral and
    longitudinal velocity, the step, and the end of the horizon
    [last.t + predictionTime]. *)
Variables (vx vz step : num) (last_t predictionTime : num).

(** Line 88: the loop condition. *)
Definition loop_guard (s : PredictState) : bool :=
  (currentTime s <? last_t + predictionTime)
  && (currZ s <? PITCH_LENGTH + lit 2).

(** Lines 89-97: forward Euler step. *)
Definition integrate (s : PredictState) : PredictState :=
  let currentTime' := currentTime s + step in
  let currX' := currX s + vx * step in
  let currZ' := currZ s + vz * step in
  let currVy' := currVy s - GRAVITY * step in
  let currY' := currY s + currVy' * step in
  mkPredictState currentTime' currX' currY' currZ' currVy' (predictions s).

(** Lines 100-103: bounce. *)
Definition bounce (s : PredictState) : PredictState :=
  if currY s <? lit 0 then
    mkPredictState (currentTime s) (currX s)
      (- currY s * lit 0.6) (currZ s)
      (- currVy s * lit 0.6) (predictions s)
  else s.

(** Line 105: [predictions.push]. *)
Definition push (s : PredictState) : PredictState :=
  mkPredictState (currentTime s) (currX s) (currY s) (currZ s) (currVy s)
    (predictions s ++
       [ {| x := currX s; y := currY s; z := currZ s; t := currentTime s;
            velocity := None |} ]).

Definition loop_body (s : PredictState) : PredictState :=
  push (bounce (integrate s)).

Fixpoint while_loop (fuel : nat) (s : PredictState)
  : outcome (list TrajectoryPoint) :=
  if loop_guard s then
    match fuel with
    | O => OutOfFuel
    | S fuel' => while_loop fuel' (loop_body s)
    end
  else Returned (predictions s).

End PredictLoop.

Definition predictTrajectory (fuel : nat) (points : list TrajectoryPoint)
    (predictionTime step : num) : outcome (list TrajectoryPoint) :=
  if (length points <? 2)%nat then Returned [] else
  match nth_error points (length points - 1),
        nth_error points (length points - 2) with
  | Some last, Some prev =>
      let dt := t last - t prev in
      let vx := (x last - x prev) / dt in
      let vy := (y last - y prev) / dt in
      let vz := (z last - z prev) / dt in
      while_loop vx vz step (t last) predictionTime fuel
        (mkPredictState (t last) (x last) (y last) (z last) vy [])
  | _, _ => Thrown
  end.

(** The defaults of the two optional parameters (lines 67-68). *)
Definition DEFAULT_PREDICTION_TIME : num := lit 1.0.
Definition DEFAULT_STEP : num := lit 0.05.

(** ** Impact resolver ([physics.ts], lines 114-158) *)

Inductive PartHit : Type := off | middle | leg | bails | none.

Record ImpactResult : Type := mkImpactResult {
  isHit : bool;
  impactPoint : option Vector3D;
  partHit : option PartHit
}.

(** Line 124: the segment meets the plane [z = PITCH_LENGTH]. *)
Definition crosses_plane (p1 p2 : TrajectoryPoint) : bool :=
  ((z p1 <=? PITCH_LENGTH) && (z p2 >=? PITCH_LENGTH))
  || ((z p1 >=? PITCH_LENGTH) && (z p2 <=? PITCH_LENGTH)).

(** Line 125; the divisor has a name of its own. *)
Definition ratio_divisor (p1 p2 : TrajectoryPoint) : num :=
  abs (z p2 - z p1).
Definition ratio (p1 p2 : TrajectoryPoint) : num :=
  abs (PITCH_LENGTH - z p1) / ratio_divisor p1 p2.

(** Lines 126-127. *)
Definition impactX (p1 p2 : TrajectoryPoint) : num :=
  x p1 + (x p2 - x p1) * ratio p1 p2.
Definition impactY (p1 p2 : TrajectoryPoint) : num :=
  y p1 + (y p2 - y p1) * ratio p1 p2.

(** Lines 129-130. *)
Definition inWidth (ix : num) : bool :=
  abs ix <=? STUMP_WIDTH / lit 2 + STUMP_RADIUS.
Definition inHeight (iy : num) : bool :=
  (iy >=? lit 0) && (iy <=? STUMP_HEIGHT + BAIL_HEIGHT).

(** Lines 133-146. *)
Definition classify (ix iy : num) : PartHit :=
  if iy >? STUMP_HEIGHT then bails
  else
    let offStumpX := STUMP_WIDTH / lit 2 in
    let legStumpX := - STUMP_WIDTH / lit 2 in
    if abs (ix - offStumpX) <=? STUMP_RADIUS * lit 1.5 then off
    else if abs (ix - legStumpX) <=? STUMP_RADIUS * lit 1.5 then leg
    else if abs ix <=? STUMP_RADIUS * lit 1.5 then middle
    else middle.

(** One iteration of the [for] loop: [Some r] when the iteration returns [r]
    (line 148), [None] when it falls through to the next index. *)
Definition segment_impact (p1 p2 : TrajectoryPoint) : option ImpactResult :=
  if crosses_plane p1 p2 then
    let ix := impactX p1 p2 in
    let iy := impactY p1 p2 in
    if inWidth ix && inHeight iy then
      Some {| isHit := true;
              impactPoint := Some (mkVector3D ix iy PITCH_LENGTH);
              partHit := Some (classify ix iy) |}
    else None
  else None.

(** Line 157. *)
Definition no_impact : ImpactResult :=
  {| isHit := false; impactPoint := None; partHit := Some none |}.

(** The [for] loop at index [i], with [remaining] iterations to go. *)
Fixpoint scan_from (remaining i : nat) (points : list TrajectoryPoint)
  : outcome ImpactResult :=
  match remaining with
  | O => Returned no_impact
  | S remaining' =>
      match nth_error points i, nth_error points (i + 1) with
      | Some p1, Some p2 =>
          match segment_impact p1 p2 with
          | Some r => Returned r
          | None => scan_from remaining' (i + 1) points
          end
      | _, _ => Thrown
      end
  end.

Definition checkWicketImpact (points : list TrajectoryPoint)
  : outcome ImpactResult :=
  scan_from (length points - 1) 0 points.

(** ** Synthetic trajectory ([TrajectoryView.tsx], lines 767-808)

    The part of [generateSimulatedData] that builds [newPoints]; the two
    draws of [Math.random] are arguments. *)

Module Gemini.
(** [AnalysisResult] of the video analyser, without the optional
    [references]. *)
Record AnalysisResult : Type := mkAnalysisResult {
  isHit : bool;
  partHit : String.string;
  speedKmh : num;
  pitch : num * num;       (* { x, z } *)
  impact : Vector3D;
  reasoning : String.string
}.
End Gemini.

(** The variables the [for] loop updates. *)
Record SimState : Type := mkSimState {
  sx : num;
  sy : num;
  sz : num;
  svy : num;
  newPoints : list TrajectoryPoint
}.

Section SimLoop.

Variables (vx vz dt : num).

(** Lines 796-801: positions first, then the vertical velocity. *)
Definition sim_advance (s : SimState) : SimState :=
  let x' := sx s + vx * dt in
  let z' := sz s + vz * dt in
  let y' := sy s + svy s * dt in
  let vy' := svy s - lit 9.81 * dt in
  mkSimState x' y' z' vy' (newPoints s).

(** Lines 804-807. *)
Definition sim_bounce (s : SimState) : SimState :=
  if (sy s <? lit 0) && (sz s <? PITCH_LENGTH) then
    mkSimState (sx s) (lit 0) (sz s) (- svy s * lit 0.75) (newPoints s)
  else s.

(** Lines 791-793. *)
Definition sim_push (i : nat) (s : SimState) : SimState :=
  let t := lit (inject_Z (Z.of_nat i)) * dt in
  mkSimState (sx s) (sy s) (sz s) (svy s)
    (newPoints s ++
       [ {| x := sx s; y := sy s; z := sz s; t := t; velocity := None |} ]).

Definition sim_body (i : nat) (s : SimState) : SimState :=
  sim_bounce (sim_advance (sim_push i s)).

(** [for (let i = ...; i <= frames; i++)], with [remaining] iterations to
    go. *)
Fixpoint sim_loop (remaining i : nat) (s : SimState) : SimState :=
  match remaining with
  | O => s
  | S remaining' => sim_loop remaining' (S i) (sim_body i s)
  end.

End SimLoop.

Definition generateSimulatedPoints (analysis : option Gemini.AnalysisResult)
    (random1 random2 : num) : list TrajectoryPoint :=
  let duration :=
    match analysis with
    | Some a => PITCH_LENGTH / (Gemini.speedKmh a / lit 3.6)
    | None => lit 0.8
    end in
  let frames := 60%nat in
  let dt := duration / lit (inject_Z (Z.of_nat frames)) in
  let x0 :=
    match analysis with
    | Some a => fst (Gemini.pitch a) * lit 0.5
    | None => (random1 - lit 0.5) * lit 0.2
    end in
  let y0 := lit 2.2 in
  let z0 := lit 0 in
  let targetX :=
    match analysis with
    | Some a => vec_x (Gemini.impact a)
    | None => (random2 - lit 0.5) * lit 0.4
    end in
  let pitchZ :=
    match analysis with
    | Some a => snd (Gemini.pitch a)
    | None => PITCH_LENGTH * lit 0.6
    end in
  let vz := PITCH_LENGTH / duration in
  let vx := (targetX - x0) / duration in
  let tBounce := pitchZ / vz in
  let vy := (lit 0.5 * lit 9.81 * tBounce * tBounce - lit 2.2) / tBounce in
  newPoints (sim_loop vx vz dt (S frames) 0 (mkSimState x0 y0 z0 vy [])).

(** ** Specification-side definitions *)

(** Consecutive sample pairs of a path, in order. *)
Definition segments (points : list TrajectoryPoint)
  : list (TrajectoryPoint * TrajectoryPoint) :=
  combine points (tl points).

(** The hit test of the specification at an interpolated point. *)
Definition hit_test (ix iy : num) : bool := inWidth ix && inHeight iy.

(** "The first segment whose longitudinal coordinate crosses the plane". *)
Definition first_crossing (points : list TrajectoryPoint)
  : option (TrajectoryPoint * TrajectoryPoint) :=
  find (fun s => crosses_plane (fst s) (snd s)) (segments points).

(** The verdict when the resolver acts on the first crossing segment only. *)
Definition hit_at_first_crossing (points : list TrajectoryPoint) : bool :=
  match first_crossing points with
  | Some (p1, p2) => hit_test (impactX p1 p2) (impactY p1 p2)
  | None => false
  end.

(** A segment that crosses the plane at a point passing the hit test. *)
Definition strikes (s : TrajectoryPoint * TrajectoryPoint) : bool :=
  crosses_plane (fst s) (snd s)
  && hit_test (impactX (fst s) (snd s)) (impactY (fst s) (snd s)).

(** The result on the first segment that strikes. *)
Definition first_strike (points : list TrajectoryPoint) : ImpactResult :=
  match find strikes (segments points) with
  | Some (p1, p2) =>
      {| isHit := true;
         impactPoint :=
           Some (mkVector3D (impactX p1 p2) (impactY p1 p2) PITCH_LENGTH);
         partHit := Some (classify (impactX p1 p2) (impactY p1 p2)) |}
  | None => no_impact
  end.

(** A segment with both endpoints at the same longitudinal coordinate. *)
Definition degenerate (s : TrajectoryPoint * TrajectoryPoint) : bool :=
  z (fst s) =? z (snd s).

(** The first iteration that returns, over a list of segments. *)
Fixpoint first_impact (segs : list (TrajectoryPoint * TrajectoryPoint))
  : ImpactResult :=
  match segs with
  | [] => no_impact
  | (p1, p2) :: rest =>
      match segment_impact p1 p2 with
      | Some r => r
      | None => first_impact rest
      end
  end.

(** Zone classification as the specification words it: the height check
    first, then proximity to the right edge, the left edge and the
    centerline, and [middle] when near none of them. *)
Definition near (ix line : num) : bool :=
  abs (ix - line) <=? STUMP_RADIUS * lit 1.5.
Definition zone_by_priority (ix iy : num) : PartHit :=
  if iy >? STUMP_HEIGHT then bails
  else if near ix (STUMP_WIDTH / lit 2) then off
  else if near ix (- (STUMP_WIDTH / lit 2)) then leg
  else if near ix (lit 0) then middle
  else middle.



Fixpoint increasing_z (points : list TrajectoryPoint) : bool :=
  match points with
  | p :: ((q :: _) as rest) => (z p <? z q) && increasing_z rest
  | _ => true
  end.

(** ** The run of the prediction loop as a relation

    [emits st out]: started in [st], the loop pushes the samples [out] and
    then stops. *)
Section Emission.

Variables (vx vz step : num) (last_t predictionTime : num).

(** The sample pushed from a state (line 105). *)
Definition sample_of (s : PredictState) : TrajectoryPoint :=
  {| x := currX s; y := currY s; z := currZ s; t := currentTime s;
     velocity := None |}.

Inductive emits : PredictState -> list TrajectoryPoint -> Prop :=
| emits_stop (s : PredictState) :
    loop_guard last_t predictionTime s = false -> emits s []
| emits_step (s : PredictState) (out : list TrajectoryPoint) :
    loop_guard last_t predictionTime s = true ->
    emits (loop_body vx vz step s) out ->
    emits s (sample_of (loop_body vx vz step s) :: out).

(** The loop condition read at a time and a longitudinal position. *)
Definition within_limits (tc zc : num) : bool :=
  (tc <? last_t + predictionTime) && (zc <? PITCH_LENGTH + lit 2).

(** Every sample but the final one was within the limits, and the final
    one (the start when nothing was pushed) is not. *)
Fixpoint stops_at_limit (tc zc : num) (out : list TrajectoryPoint) : bool :=
  match out with
  | [] => negb (within_limits tc zc)
  | p :: rest => within_limits tc zc && stops_at_limit (t p) (z p) rest
  end.

End Emission.

(** ** Double precision

    The numbers of the source are IEEE 754 doubles: every finite result of
    an operation is rounded to the nearest double, ties to even, and
    overflows to an infinity.  [round64] does this to an exact rational;
    the operations of [Rounded] are those of [Num] with the finite results
    passed through a rounding [rnd].  With [rnd := fin] they are the
    operations of [Num]; with [rnd := round64] they are those of the
    source.  The sign of a zero is not kept: the source reads it only where
    it divides by [dt = 0], and what is proved of the loop in doubles is
    proved for every velocity estimate. *)

Module Binary64.

Definition pow2 (e : Z) : Q := (2 ^ e)%Q.

(** The binary exponent of a positive rational: [2^e <= q < 2^(e+1)]. *)
Definition ilog2 (q : Q) : Z :=
  let e := (Z.log2 (Qnum q) - Z.log2 (Zpos (Qden q)))%Z in
  if Qle_bool (pow2 e) q then e else (e - 1)%Z.

(** The nearest integer to a non-negative rational, ties to even. *)
Definition round_half_even (m : Q) : Z :=
  let f := Qfloor m in
  match ((m - inject_Z f) ?= (1 # 2))%Q with
  | Lt => f
  | Gt => (f + 1)%Z
  | Eq => if Z.even f then f else (f + 1)%Z
  end.

(** The exponent of the last place: 53 significant bits, and never below
    the least subnormal [2^-1074]. *)
Definition ulp_exponent (q : Q) : Z := Z.max (ilog2 q - 52) (-1074).

(** The nearest multiple of the last place to a positive rational. *)
Definition nearest (q : Q) : Q :=
  let E := ulp_exponent q in
  (inject_Z (round_half_even (q / pow2 E)) * pow2 E)%Q.

(** A positive rational rounded to a double. *)
Definition round_pos (q : Q) : num :=
  let r := nearest q in
  if Qle_bool (pow2 1024) r then PInf else Fin (Qred r).

Definition round64 (q : Q) : num :=
  match (q ?= 0)%Q with
  | Eq => Fin 0
  | Gt => round_pos q
  | Lt => neg (round_pos (- q))
  end.


(** The distance between consecutive doubles at a positive rational. *)
Definition spacing (q : Q) : Q := pow2 (ulp_exponent q).





End Binary64.

Import Binary64.

Module Rounded.

Section Arithmetic.

(** The rounding of an exact finite result. *)
Variable rnd : Q -> num.

(** A decimal literal of the source is read as the nearest double. *)
Definition lit (q : Q) : num := rnd q.

(** An operation on finite operands is the exact one, rounded; on a special
    value, and for a division by zero, it is that of [Num]. *)

Definition neg (a : num) : num :=
  match a with
  | Fin q => rnd (- q)
  | _ => Num.neg a
  end.

Definition add (a b : num) : num :=
  match a, b with
  | Fin p, Fin q => rnd (p + q)
  | _, _ => Num.add a b
  end.

Definition sub (a b : num) : num :=
  match a, b with
  | Fin p, Fin q => rnd (p - q)
  | _, _ => Num.sub a b
  end.

Definition mul (a b : num) : num :=
  match a, b with
  | Fin p, Fin q => rnd (p * q)
  | _, _ => Num.mul a b
  end.

Definition div (a b : num) : num :=
  match a, b with
  | Fin p, Fin q =>
      match sgn q with
      | Eq => Num.div a b
      | _ => rnd (p / q)
      end
  | _, _ => Num.div a b
  end.

Definition PITCH_LENGTH : num := lit 20.12.
Definition GRAVITY : num := lit 9.81.

(** [physics.ts], line 88. *)
Definition loop_guard (last_t predictionTime : num) (s : PredictState)
  : bool :=
  (currentTime s <? add last_t predictionTime)
  && (currZ s <? add PITCH_LENGTH (lit 2)).

(** Lines 89-97. *)
Definition integrate (vx vz step : num) (s : PredictState) : PredictState :=
  let currentTime' := add (currentTime s) step in
  let currX' := add (currX s) (mul vx step) in
  let currZ' := add (currZ s) (mul vz step) in
  let currVy' := sub (currVy s) (mul GRAVITY step) in
  let currY' := add (currY s) (mul currVy' step) in
  mkPredictState currentTime' currX' currY' currZ' currVy' (predictions s).

(** Lines 100-103. *)
Definition bounce (s : PredictState) : PredictState :=
  if currY s <? lit 0 then
    mkPredictState (currentTime s) (currX s)
      (mul (neg (currY s)) (lit 0.6)) (currZ s)
      (mul (neg (currVy s)) (lit 0.6)) (predictions s)
  else s.

(** Line 105 is [push], which computes nothing. *)
Definition loop_body (vx vz step : num) (s : PredictState) : PredictState :=
  push (bounce (integrate vx vz step s)).

Fixpoint while_loop (vx vz step last_t predictionTime : num) (fuel : nat)
    (s : PredictState) : outcome (list TrajectoryPoint) :=
  if loop_guard last_t predictionTime s then
    match fuel with
    | O => OutOfFuel
    | S fuel' =>
        while_loop vx vz step last_t predictionTime fuel'
          (loop_body vx vz step s)
    end
  else Returned (predictions s).

(** Lines 65-109. *)
Definition predictTrajectory (fuel : nat) (points : list TrajectoryPoint)
    (predictionTime step : num) : outcome (list TrajectoryPoint) :=
  if (length points <? 2)%nat then Returned [] else
  match nth_error points (length points - 1),
        nth_error points (length points - 2) with
  | Some last, Some prev =>
      let dt := sub (t last) (t prev) in
      let vx := div (sub (x last) (x prev)) dt in
      let vy := div (sub (y last) (y prev)) dt in
      let vz := div (sub (z last) (z prev)) dt in
      while_loop vx vz step (t last) predictionTime fuel
        (mkPredictState (t last) (x last) (y last) (z last) vy [])
  | _, _ => Thrown
  end.

(** The run of the loop as a relation, as [emits]. *)
Inductive emits (vx vz step last_t predictionTime : num)
  : PredictState -> list TrajectoryPoint -> Prop :=
| rounded_stop (s : PredictState) :
    loop_guard last_t predictionTime s = false ->
    emits vx vz step last_t predictionTime s []
| rounded_step (s : PredictState) (out : list TrajectoryPoint) :
    loop_guard last_t predictionTime s = true ->
    emits vx vz step last_t predictionTime (loop_body vx vz step s) out ->
    emits vx vz step last_t predictionTime s
      (sample_of (loop_body vx vz step s) :: out).

End Arithmetic.

End Rounded.


(** [predictTrajectory] as the source computes it, in doubles. *)
Definition predictTrajectory64 : nat -> list TrajectoryPoint -> num -> num ->
                                 outcome (list TrajectoryPoint) :=
  Rounded.predictTrajectory Binary64.round64.

(** The nearest double to a number: how the source reads a literal. *)
Definition to_double (a : num) : num :=
  match a with
  | Fin q => Binary64.round64 q
  | _ => a
  end.

Definition sample_to_double (p : TrajectoryPoint) : TrajectoryPoint :=
  {| x := to_double (x p); y := to_double (y p); z := to_double (z p);
     t := to_double (t p); velocity := velocity p |}.

(** ** Concrete inputs *)

(** A sample without velocity, from decimal coordinates. *)
Definition sample (px py pz pt : Q) : TrajectoryPoint :=
  {| x := lit px; y := lit py; z := lit pz; t := lit pt; velocity := None |}.

(** A path that crosses the plane wide of the stumps, turns round and
    crosses it again on the middle stump. *)
Definition two_crossings : list TrajectoryPoint :=
  [sample 1 0.3 20 0; sample 0 0.3 21 1; sample 0 0.3 20 2].

(** A path that passes outside off stump and comes back through the
    wicket. *)
Definition rebound : list TrajectoryPoint :=
  [sample 0.3 0.3 19 0; sample 0.3 0.3 21 0.1; sample (-0.3) 0.5 19 0.2].

(** Straight paths through the plane: on the centerline at height 0.3,
    over the off stump at the height of the bails, 0.3 wide of the
    centerline, and one that stops half way down the pitch. *)
Definition through_middle : list TrajectoryPoint :=
  [sample 0 0.3 19 0; sample 0 0.3 21 0.1].
Definition over_off_stump : list TrajectoryPoint :=
  [sample 0.1 0.72 19 0; sample 0.1 0.72 21 0.1].
Definition wide_path : list TrajectoryPoint :=
  [sample (-0.3) 0.3 19 0; sample (-0.3) 0.3 21 0.1].
Definition short_path : list TrajectoryPoint :=
  [sample 0 2.2 0 0; sample 0 1 5 0.25; sample 0 0.2 10 0.5].

(** A segment lying in the plane of the stumps. *)
Definition in_plane : TrajectoryPoint * TrajectoryPoint :=
  (sample 0 0.3 20.12 0, sample 0.05 0.3 20.12 0.1).

(** The history of the scenario of the specification. *)
Definition scenario : list TrajectoryPoint :=
  [sample 0 2.2 0 0; sample 0.02 2.0 1.0 0.05].

(** The same history as the source holds it, in doubles. *)
Definition scenario64 : list TrajectoryPoint :=
  map sample_to_double scenario.

(** Two samples taken at the same instant. *)
Definition same_instant : list TrajectoryPoint :=
  [sample 0 1 0 0; sample 0 1 1 0].




(** A delivery about to land short of the stumps, in the synthetic loop. *)
Definition landing : SimState :=
  mkSimState (lit 0) (lit 0.01) (lit 5) (lit (-5)) [].

(** The same delivery past the stumps. *)
Definition past_stumps : SimState :=
  mkSimState (lit 0) (lit 0.01) (lit 21) (lit (-5)) [].

(** * Properties *)

(** ** Numbers *)

Section NumFacts.

Lemma ltb_Fin (p q : Q) : (Fin p <? Fin q) = true <-> (p < q)%Q.
Proof.
  unfold ltb, cmp. rewrite Qlt_alt.
  destruct (p ?= q)%Q; split; intro H; congruence.
Qed.

Lemma gtb_Fin (p q : Q) : (Fin p >? Fin q) = true <-> (q < p)%Q.
Proof.
  unfold gtb, cmp. rewrite Qgt_alt.
  destruct (p ?= q)%Q; split; intro H; congruence.
Qed.

Lemma leb_Fin (p q : Q) : (Fin p <=? Fin q) = true <-> (p <= q)%Q.
Proof.
  unfold leb, cmp. rewrite Qle_alt.
  destruct (p ?= q)%Q; split; intro H; congruence.
Qed.

Lemma geb_Fin (p q : Q) : (Fin p >=? Fin q) = true <-> (q <= p)%Q.
Proof.
  unfold geb, cmp. rewrite Qge_alt.
  destruct (p ?= q)%Q; split; intro H; congruence.
Qed.

Lemma eqb_Fin (p q : Q) : (Fin p =? Fin q) = true <-> (p == q)%Q.
Proof.
  unfold eqb, cmp. rewrite Qeq_alt.
  destruct (p ?= q)%Q; split; intro H; congruence.
Qed.

Lemma ltb_Fin_false (p q : Q) : (Fin p <? Fin q) = false <-> (q <= p)%Q.
Proof.
  rewrite <- not_true_iff_false, ltb_Fin.
  split; [apply Qnot_lt_le | apply Qle_not_lt].
Qed.

Lemma leb_Fin_false (p q : Q) : (Fin p <=? Fin q) = false <-> (q < p)%Q.
Proof.
  rewrite <- not_true_iff_false, leb_Fin.
  split; [apply Qnot_le_lt | apply Qlt_not_le].
Qed.

Lemma gtb_Fin_false (p q : Q) : (Fin p >? Fin q) = false <-> (p <= q)%Q.
Proof.
  rewrite <- not_true_iff_false, gtb_Fin.
  split; [apply Qnot_lt_le | apply Qle_not_lt].
Qed.

(** Only a finite operand can pass [===] with a finite one, and the two
    infinities only pass it with themselves. *)
Lemma eqb_true_cases (a b : num) :
  (a =? b) = true ->
  (a = PInf /\ b = PInf) \/ (a = NInf /\ b = NInf)
  \/ exists p q, a = Fin p /\ b = Fin q /\ (p == q)%Q.
Proof.
  destruct a as [| | |p], b as [| | |q]; try discriminate; intros H; auto.
  right; right. exists p, q. rewrite eqb_Fin in H. auto.
Qed.


Lemma mul_not_finite_r (a b : num) :
  is_finite b = false -> is_finite (a * b) = false.
Proof.
  destruct a, b; try discriminate; try reflexivity;
    intros _; simpl; unfold scale_inf; destruct (sgn _); reflexivity.
Qed.






End NumFacts.

(** Unfolds the arithmetic of finite values down to rationals. *)
Ltac fin_arith := cbn [add sub mul neg abs fin lit]; unfold lit, fin.


(** ** Position estimator *)


(** An infinite frame size is accepted as well, and here every field of the
    returned sample is finite. *)
Lemma reconstruct3D_infinite_frame :
  reconstruct3D (lit 5) (lit 50) PInf PInf (lit 0)
  = Returned {| x := lit 0; y := lit 3; z := lit 0; t := lit 0;
                velocity := None |}.
Proof. reflexivity. Qed.



(** ** Synthetic trajectory *)

Section Synthetic.

Variables (vx vz dt : num).

Lemma newPoints_sim_body (i : nat) (s : SimState) :
  newPoints (sim_body vx vz dt i s)
  = newPoints s
    ++ [ {| x := sx s; y := sy s; z := sz s;
            t := lit (inject_Z (Z.of_nat i)) * dt; velocity := None |} ].
Proof.
  unfold sim_body, sim_bounce, sim_advance, sim_push. cbn [sy sz newPoints].
  destruct (_ && _); reflexivity.
Qed.

(** Every iteration of the loop records one sample. *)
Lemma sim_loop_length (remaining : nat) :
  forall (i : nat) (s : SimState),
    length (newPoints (sim_loop vx vz dt remaining i s))
    = (length (newPoints s) + remaining)%nat.
Proof.
  induction remaining as [|remaining IH]; intros i s; cbn [sim_loop].
  - lia.
  - rewrite IH, newPoints_sim_body, length_app. cbn [length]. lia.
Qed.

End Synthetic.

(** The synthetic trajectory has [frames + 1 = 61] samples, whatever the
    analysis and the random draws. *)
Lemma generateSimulatedPoints_length
    (analysis : option Gemini.AnalysisResult) (random1 random2 : num) :
  length (generateSimulatedPoints analysis random1 random2) = 61%nat.
Proof.
  unfold generateSimulatedPoints. rewrite sim_loop_length. reflexivity.
Qed.

(** ** Trajectory predictor: degenerate history *)

(** C6: a history of fewer than two samples gives the empty sequence, for
    every horizon and step, without raising and without entering the
    loop. *)
Theorem predictTrajectory_short_history
    (fuel : nat) (points : list TrajectoryPoint) (predictionTime step : num) :
  (length points < 2)%nat ->
  predictTrajectory fuel points predictionTime step = Returned [].
Proof.
  intros H. unfold predictTrajectory.
  apply Nat.ltb_lt in H. rewrite H. reflexivity.
Qed.

Lemma predictTrajectory_short_history_witness :
  predictTrajectory 0 [sample 0 2.2 0 0] NaN (lit 0) = Returned [].
Proof. apply predictTrajectory_short_history. simpl. lia. Defined.

(** ** Bounce *)

(** C4, as stated, fails at the synthetic trajectory: the height that went
    negative is set to zero, not reflected. *)
Lemma sim_bounce_not_reflected :
  let a := sim_advance (lit 0) (lit 20) (lit 0.01) landing in
  (sy a <? lit 0) = true
  /\ sy (sim_bounce a) = lit 0
  /\ - sy a * lit 0.75 = lit 0.03
  /\ sy (sim_bounce a) <> - sy a * lit 0.75.
Proof. repeat split. discriminate. Qed.

(** C4, amended: in the prediction loop a height that went negative in the
    step is reflected and the vertical velocity reversed, both scaled by
    0.6, and the reflected height is the one pushed.  In the synthetic
    trajectory a height that went negative short of the stumps is set to
    zero and the vertical velocity reversed and scaled by 0.75; past the
    stumps a negative height is left as it is. *)
Theorem bounce_rule_at_both_sites :
  (forall (vx vz step : num) (s : PredictState),
      let a := integrate vx vz step s in
      (currY a <? lit 0) = true ->
      currY (loop_body vx vz step s) = - currY a * lit 0.6
      /\ currVy (loop_body vx vz step s) = - currVy a * lit 0.6
      /\ y (sample_of (loop_body vx vz step s)) = - currY a * lit 0.6)
  /\ (forall (vx vz dt : num) (i : nat) (s : SimState),
      let a := sim_advance vx vz dt (sim_push dt i s) in
      (sy a <? lit 0) = true -> (sz a <? PITCH_LENGTH) = true ->
      sy (sim_body vx vz dt i s) = lit 0
      /\ svy (sim_body vx vz dt i s) = - svy a * lit 0.75)
  /\ (forall (vx vz dt : num) (i : nat) (s : SimState),
      let a := sim_advance vx vz dt (sim_push dt i s) in
      (sz a <? PITCH_LENGTH) = false -> sim_body vx vz dt i s = a).
Proof.
  split; [|split].
  - intros vx vz step s a H. unfold loop_body, bounce. fold a. rewrite H.
    repeat split.
  - intros vx vz dt i s a Hy Hz. unfold sim_body, sim_bounce. fold a.
    rewrite Hy, Hz. split; reflexivity.
  - intros vx vz dt i s a Hz. unfold sim_body, sim_bounce. fold a.
    rewrite Hz, andb_false_r. reflexivity.
Qed.

Lemma bounce_rule_at_both_sites_witness :
  (let s := mkPredictState (lit 0) (lit 0) (lit 0.01) (lit 5) (lit (-5)) [] in
   let a := integrate (lit 0) (lit 20) (lit 0.05) s in
   currY (loop_body (lit 0) (lit 20) (lit 0.05) s) = - currY a * lit 0.6)
  /\ sy (sim_body (lit 0) (lit 20) (lit 0.01) 0 landing) = lit 0
  /\ sy (sim_body (lit 0) (lit 20) (lit 0.01) 0 past_stumps) = lit (-0.04).
Proof.
  destruct bounce_rule_at_both_sites as (Hp & Hs & Hpast). split; [|split].
  - apply Hp. reflexivity.
  - apply Hs; reflexivity.
  - rewrite Hpast; reflexivity.
Defined.


(** ** Impact resolver: the loop *)

Section Scan.

Lemma mul_nan_r (a : num) : a * NaN = NaN.
Proof. destruct a; reflexivity. Qed.

Lemma add_nan_r (a : num) : a + NaN = NaN.
Proof. destruct a; reflexivity. Qed.

Lemma segments_cons2 (p1 p2 : TrajectoryPoint) (rest : list TrajectoryPoint) :
  segments (p1 :: p2 :: rest) = (p1, p2) :: segments (p2 :: rest).
Proof. reflexivity. Qed.

(** The indexed loop, started at the end of a prefix, is the scan of the
    segments that remain. *)
Lemma scan_from_suffix (l pre : list TrajectoryPoint) :
  scan_from (length l - 1) (length pre) (pre ++ l)
  = Returned (first_impact (segments l)).
Proof.
  revert pre. induction l as [|p1 l IH]; intros pre; [reflexivity|].
  destruct l as [|p2 rest]; [reflexivity|].
  rewrite segments_cons2.
  replace (length (p1 :: p2 :: rest) - 1)%nat with (S (length rest))
    by (simpl; lia).
  cbn [scan_from first_impact].
  rewrite nth_error_app2 by lia. rewrite Nat.sub_diag. cbn [nth_error].
  rewrite nth_error_app2 by lia.
  replace (length pre + 1 - length pre)%nat with 1%nat by lia.
  cbn [nth_error].
  destruct (segment_impact p1 p2) as [r|]; [reflexivity|].
  specialize (IH (pre ++ [p1])).
  rewrite length_app, <- app_assoc in IH. cbn [length app] in IH.
  replace (S (length rest) - 1)%nat with (length rest) in IH by lia.
  exact IH.
Qed.

Lemma checkWicketImpact_first_impact (points : list TrajectoryPoint) :
  checkWicketImpact points = Returned (first_impact (segments points)).
Proof. exact (scan_from_suffix points []). Qed.

Lemma segment_impact_strikes (p1 p2 : TrajectoryPoint) :
  segment_impact p1 p2 =
  if strikes (p1, p2) then
    Some {| isHit := true;
            impactPoint :=
              Some (mkVector3D (impactX p1 p2) (impactY p1 p2) PITCH_LENGTH);
            partHit := Some (classify (impactX p1 p2) (impactY p1 p2)) |}
  else None.
Proof.
  unfold segment_impact, strikes, hit_test. cbn [fst snd].
  destruct (crosses_plane p1 p2); [|reflexivity].
  cbn [andb]. destruct (inWidth _ && inHeight _); reflexivity.
Qed.

Lemma first_impact_find (segs : list (TrajectoryPoint * TrajectoryPoint)) :
  first_impact segs =
  match find strikes segs with
  | Some (p1, p2) =>
      {| isHit := true;
         impactPoint :=
           Some (mkVector3D (impactX p1 p2) (impactY p1 p2) PITCH_LENGTH);
         partHit := Some (classify (impactX p1 p2) (impactY p1 p2)) |}
  | None => no_impact
  end.
Proof.
  induction segs as [|[p1 p2] segs IH]; [reflexivity|].
  cbn [first_impact find]. rewrite segment_impact_strikes.
  destruct (strikes (p1, p2)); [reflexivity | exact IH].
Qed.

Lemma find_refines {A : Type} (f g : A -> bool) (l : list A) (a : A) :
  (forall b, g b = true -> f b = true) ->
  find f l = Some a -> g a = true -> find g l = Some a.
Proof.
  intros Hgf. induction l as [|b l IH]; [discriminate|].
  cbn [find]. destruct (f b) eqn:Hf.
  - intros [= ->] Hg. rewrite Hg. reflexivity.
  - intros Hfind Hg. destruct (g b) eqn:Hgb.
    + apply Hgf in Hgb. congruence.
    + auto.
Qed.

Lemma find_none_iff {A : Type} (f : A -> bool) (l : list A) :
  find f l = None <-> forall a, In a l -> f a = false.
Proof.
  split; [apply find_none|].
  induction l as [|b l IH]; intros H; [reflexivity|].
  cbn [find]. rewrite (H b (or_introl eq_refl)).
  apply IH. intros a Ha. apply H. right. exact Ha.
Qed.

End Scan.

(** C1, as stated, fails: on [two_crossings] the first segment that
    straddles the plane crosses it wide of the stumps, yet a hit is
    reported, from the later segment. *)
Lemma first_crossing_not_decisive :
  first_crossing two_crossings
    = Some (sample 1 0.3 20 0, sample 0 0.3 21 1)
  /\ hit_at_first_crossing two_crossings = false
  /\ checkWicketImpact two_crossings
     = Returned {| isHit := true;
                   impactPoint := Some (mkVector3D (lit 0) (lit 0.3)
                                                   PITCH_LENGTH);
                   partHit := Some middle |}.
Proof. repeat split. Qed.

(** C1, amended: the resolver scans consecutive sample pairs in order and
    returns on the first segment that both straddles the plane
    [z = PITCH_LENGTH] and whose crossing point, interpolated with
    [ratio = |plane - z1| / |z2 - z1|], passes the hit test; a straddling
    segment that fails the test is passed over.  So a hit is reported
    exactly when some segment straddles the plane and passes the test. *)
Theorem checkWicketImpact_first_strike (points : list TrajectoryPoint) :
  checkWicketImpact points = Returned (first_strike points)
  /\ (isHit (first_strike points) = true <->
      exists p1 p2,
        In (p1, p2) (segments points)
        /\ crosses_plane p1 p2 = true
        /\ (abs (impactX p1 p2) <=? STUMP_WIDTH / lit 2 + STUMP_RADIUS) = true
        /\ (impactY p1 p2 >=? lit 0) = true
        /\ (impactY p1 p2 <=? STUMP_HEIGHT + BAIL_HEIGHT) = true)
  /\ (forall p1 p2,
        impactX p1 p2
        = x p1 + (x p2 - x p1)
                 * (abs (PITCH_LENGTH - z p1) / abs (z p2 - z p1))
        /\ impactY p1 p2
           = y p1 + (y p2 - y p1)
                    * (abs (PITCH_LENGTH - z p1) / abs (z p2 - z p1))).
Proof.
  split; [|split].
  - rewrite checkWicketImpact_first_impact. f_equal. apply first_impact_find.
  - unfold first_strike. destruct (find strikes (segments points))
      as [[p1 p2]|] eqn:Hfind.
    + split; [intros _|reflexivity].
      destruct (find_some _ _ Hfind) as [Hin Hs].
      unfold strikes, hit_test, inWidth, inHeight in Hs. cbn [fst snd] in Hs.
      repeat rewrite andb_true_iff in Hs.
      exists p1, p2. tauto.
    + split; [discriminate|]. intros (p1 & p2 & Hin & Hc & Hw & H0 & Hh).
      rewrite find_none_iff in Hfind. specialize (Hfind _ Hin).
      unfold strikes, hit_test, inWidth, inHeight in Hfind.
      cbn [fst snd] in Hfind. rewrite Hc, Hw, H0, Hh in Hfind. discriminate.
  - intros p1 p2. split; reflexivity.
Qed.

(** ** Impact resolver: degenerate segments *)

Section Degenerate.

Lemma PITCH_LENGTH_value : PITCH_LENGTH = Fin (Qred 20.12).
Proof. reflexivity. Qed.

Lemma div_zero_zero (a b : Q) : (a == 0)%Q -> (b == 0)%Q -> Fin a / Fin b = NaN.
Proof.
  intros Ha Hb. unfold div, sgn.
  rewrite (proj1 (Qeq_alt _ _) Hb), (proj1 (Qeq_alt _ _) Ha). reflexivity.
Qed.

Lemma Qabs_zero (a : Q) : (a == 0)%Q -> (Qabs a == 0)%Q.
Proof. intros H. rewrite H. reflexivity. Qed.

(** A degenerate segment meets the plane only when it lies in it. *)
Lemma degenerate_crossing (p1 p2 : TrajectoryPoint) (p q : Q) :
  z p1 = Fin p -> z p2 = Fin q -> (p == q)%Q ->
  crosses_plane p1 p2 = true -> (p == 20.12)%Q.
Proof.
  intros Hp Hq Hpq. unfold crosses_plane.
  rewrite Hp, Hq, PITCH_LENGTH_value.
  rewrite orb_true_iff, !andb_true_iff, !leb_Fin, !geb_Fin.
  rewrite !Qred_correct. lra.
Qed.

Lemma in_plane_ratio (p1 p2 : TrajectoryPoint) (p q : Q) :
  z p1 = Fin p -> z p2 = Fin q -> (p == q)%Q -> (p == 20.12)%Q ->
  (ratio_divisor p1 p2 =? lit 0) = true /\ ratio p1 p2 = NaN.
Proof.
  intros Hp Hq Hpq Hplane. unfold ratio, ratio_divisor.
  rewrite Hp, Hq, PITCH_LENGTH_value. fin_arith. split.
  - rewrite eqb_Fin, !Qred_correct. apply Qabs_zero. lra.
  - apply div_zero_zero; rewrite !Qred_correct; apply Qabs_zero; lra.
Qed.

Lemma NaN_ratio_misses (p1 p2 : TrajectoryPoint) :
  ratio p1 p2 = NaN -> inWidth (impactX p1 p2) = false.
Proof.
  intros H. unfold impactX. rewrite H, mul_nan_r, add_nan_r. reflexivity.
Qed.

(** A segment at an infinite longitudinal coordinate is off the plane. *)
Lemma infinite_off_plane (p1 p2 : TrajectoryPoint) :
  (z p1 = PInf /\ z p2 = PInf) \/ (z p1 = NInf /\ z p2 = NInf) ->
  crosses_plane p1 p2 = false /\ (z p1 =? PITCH_LENGTH) = false.
Proof.
  intros [[H1 H2] | [H1 H2]]; unfold crosses_plane; rewrite H1, H2;
    split; reflexivity.
Qed.

Lemma in_plane_crosses (p1 p2 : TrajectoryPoint) (p q : Q) :
  z p1 = Fin p -> z p2 = Fin q -> (p == q)%Q ->
  (z p1 =? PITCH_LENGTH) = true -> crosses_plane p1 p2 = true.
Proof.
  intros Hp Hq Hpq. unfold crosses_plane.
  rewrite Hp, Hq, PITCH_LENGTH_value, eqb_Fin.
  rewrite orb_true_iff, !andb_true_iff, !leb_Fin, !geb_Fin.
  rewrite !Qred_correct. lra.
Qed.

Lemma degenerate_falls_through (p1 p2 : TrajectoryPoint) :
  degenerate (p1, p2) = true ->
  segment_impact p1 p2 = None
  /\ (crosses_plane p1 p2 = true <-> (z p1 =? PITCH_LENGTH) = true)
  /\ (crosses_plane p1 p2 = true ->
      (ratio_divisor p1 p2 =? lit 0) = true /\ ratio p1 p2 = NaN).
Proof.
  unfold degenerate. cbn [fst snd]. intros H.
  destruct (eqb_true_cases _ _ H) as [Hinf | [Hinf | (p & q & H1 & H2 & Hpq)]].
  - destruct (infinite_off_plane p1 p2 (or_introl Hinf)) as [Hc Hoff].
    unfold segment_impact. rewrite Hc, Hoff.
    repeat split; discriminate.
  - destruct (infinite_off_plane p1 p2 (or_intror Hinf)) as [Hc Hoff].
    unfold segment_impact. rewrite Hc, Hoff.
    repeat split; discriminate.
  - assert (Hiff : crosses_plane p1 p2 = true
                   <-> (z p1 =? PITCH_LENGTH) = true).
    { split; [|apply (in_plane_crosses _ _ _ _ H1 H2 Hpq)].
      intros Hc. rewrite H1, PITCH_LENGTH_value, eqb_Fin, Qred_correct.
      exact (degenerate_crossing _ _ _ _ H1 H2 Hpq Hc). }
    assert (Hnan : crosses_plane p1 p2 = true ->
                   (ratio_divisor p1 p2 =? lit 0) = true
                   /\ ratio p1 p2 = NaN).
    { intros Hc. apply (in_plane_ratio _ _ _ _ H1 H2 Hpq).
      exact (degenerate_crossing _ _ _ _ H1 H2 Hpq Hc). }
    split; [|split; assumption].
    unfold segment_impact. destruct (crosses_plane p1 p2); [|reflexivity].
    destruct (Hnan eq_refl) as [_ Hr].
    rewrite (NaN_ratio_misses _ _ Hr). reflexivity.
Qed.

Lemma first_impact_skips_degenerate
    (segs : list (TrajectoryPoint * TrajectoryPoint)) :
  first_impact (filter (fun s => negb (degenerate s)) segs)
  = first_impact segs.
Proof.
  induction segs as [|[p1 p2] segs IH]; [reflexivity|].
  cbn [filter first_impact]. destruct (degenerate (p1, p2)) eqn:Hd.
  - destruct (degenerate_falls_through _ _ Hd) as [-> _]. exact IH.
  - cbn [negb first_impact]. rewrite IH. reflexivity.
Qed.

End Degenerate.

(** C3, as stated, fails: a segment lying in the plane of the stumps is
    degenerate, passes the crossing test, and its ratio is computed with a
    zero divisor, giving [NaN]. *)
Lemma in_plane_segment_divides_by_zero :
  degenerate in_plane = true
  /\ crosses_plane (fst in_plane) (snd in_plane) = true
  /\ ratio_divisor (fst in_plane) (snd in_plane) = lit 0
  /\ ratio (fst in_plane) (snd in_plane) = NaN.
Proof. repeat split. Qed.

(** C3, amended: a segment whose endpoints have equal [z] never makes the
    loop return, and the result of a path is the result of scanning its
    other segments alone.  Off the plane such a segment fails the crossing
    test, so nothing is divided.  In the plane ([z1 = z2 = PITCH_LENGTH])
    it passes the crossing test and the ratio is the division [0/0]: the
    source has no guard; the quotient is [NaN], the hit test on it fails and
    the scan goes on. *)
Theorem degenerate_segments_ignored :
  (forall p1 p2,
      (z p1 =? z p2) = true ->
      segment_impact p1 p2 = None
      /\ (crosses_plane p1 p2 = true <-> (z p1 =? PITCH_LENGTH) = true)
      /\ (crosses_plane p1 p2 = true ->
          (ratio_divisor p1 p2 =? lit 0) = true /\ ratio p1 p2 = NaN))
  /\ (forall points,
      checkWicketImpact points
      = Returned (first_impact
                    (filter (fun s => negb (z (fst s) =? z (snd s)))
                       (segments points)))).
Proof.
  split.
  - intros p1 p2 H. apply degenerate_falls_through. exact H.
  - intros points. rewrite checkWicketImpact_first_impact. f_equal.
    symmetry. apply first_impact_skips_degenerate.
Qed.

Lemma degenerate_segments_ignored_witness :
  segment_impact (fst in_plane) (snd in_plane) = None
  /\ checkWicketImpact (fst in_plane :: snd in_plane :: two_crossings)
     = Returned (first_impact
                   (filter (fun s => negb (z (fst s) =? z (snd s)))
                      (segments (fst in_plane :: snd in_plane
                                   :: two_crossings)))).
Proof.
  destruct degenerate_segments_ignored as [Hseg Hpath]. split.
  - apply Hseg. reflexivity.
  - apply Hpath.
Defined.

(** ** Impact resolver: hit test and zones *)

Section Zones.

Lemma half_width_value : STUMP_WIDTH / lit 2 + STUMP_RADIUS = Fin 0.1333.
Proof. reflexivity. Qed.

Lemma top_value : STUMP_HEIGHT + BAIL_HEIGHT = Fin (Qred 0.724).
Proof. reflexivity. Qed.

Lemma STUMP_HEIGHT_value : STUMP_HEIGHT = Fin 0.711.
Proof. reflexivity. Qed.

Lemma tolerance_value : STUMP_RADIUS * lit 1.5 = Fin (Qred 0.0285).
Proof. reflexivity. Qed.

Lemma offStumpX_value : STUMP_WIDTH / lit 2 = Fin 0.1143.
Proof. reflexivity. Qed.

Lemma legStumpX_value : - STUMP_WIDTH / lit 2 = Fin (-0.1143).
Proof. reflexivity. Qed.

(** What passes [===] with a literal is finite and equal to it. *)
Lemma eqb_lit (a : num) (c : Q) :
  (a =? lit c) = true -> exists p, a = Fin p /\ (p == c)%Q.
Proof.
  destruct a as [| | |p]; try discriminate. unfold lit, fin.
  rewrite eqb_Fin, Qred_correct. eauto.
Qed.

(** The source's classification is the specification's priority order. *)
Lemma classify_zone (ix iy : num) : classify ix iy = zone_by_priority ix iy.
Proof.
  unfold classify, zone_by_priority, near.
  change (- (STUMP_WIDTH / lit 2)) with (- STUMP_WIDTH / lit 2).
  destruct (iy >? STUMP_HEIGHT); [reflexivity|].
  destruct (abs (ix - STUMP_WIDTH / lit 2) <=? _); [reflexivity|].
  destruct (abs (ix - - STUMP_WIDTH / lit 2) <=? _); [reflexivity|].
  destruct (abs ix <=? _), (abs (ix - lit 0) <=? _); reflexivity.
Qed.

(** A crossing on the centerline at height 0.3. *)
Lemma centre_strike (ix iy : num) :
  (ix =? lit 0) = true -> (iy =? lit 0.3) = true ->
  hit_test ix iy = true /\ classify ix iy = middle.
Proof.
  intros Hx Hy.
  destruct (eqb_lit _ _ Hx) as (p & -> & Hp).
  destruct (eqb_lit _ _ Hy) as (q & -> & Hq).
  assert (Hoff : (abs (Fin p - STUMP_WIDTH / lit 2) <=? STUMP_RADIUS * lit 1.5)
                 = false).
  { rewrite offStumpX_value, tolerance_value. fin_arith.
    rewrite leb_Fin_false, !Qred_correct, Hp. reflexivity. }
  assert (Hleg : (abs (Fin p - - STUMP_WIDTH / lit 2)
                  <=? STUMP_RADIUS * lit 1.5) = false).
  { rewrite legStumpX_value, tolerance_value. fin_arith.
    rewrite leb_Fin_false, !Qred_correct, Hp. reflexivity. }
  assert (Hlow : (Fin q >? STUMP_HEIGHT) = false).
  { rewrite STUMP_HEIGHT_value, gtb_Fin_false, Hq. discriminate. }
  split.
  - unfold hit_test, inWidth, inHeight.
    rewrite half_width_value, top_value. fin_arith.
    rewrite !andb_true_iff, leb_Fin, geb_Fin, leb_Fin, !Qred_correct, Hp, Hq.
    repeat split; discriminate.
  - unfold classify. rewrite Hlow, Hoff, Hleg.
    destruct (abs (Fin p) <=? _); reflexivity.
Qed.

(** A crossing above the stumps and inside the band of the bails. *)
Lemma top_strike (ix iy : num) :
  inWidth ix = true -> (iy >? STUMP_HEIGHT) = true ->
  (iy <=? STUMP_HEIGHT + BAIL_HEIGHT) = true ->
  hit_test ix iy = true /\ classify ix iy = bails.
Proof.
  intros Hw Hgt Hle. split.
  - unfold hit_test, inHeight. rewrite Hw, Hle. cbn [andb].
    rewrite andb_true_r.
    destruct iy as [| | |q]; try discriminate.
    rewrite STUMP_HEIGHT_value, gtb_Fin in Hgt.
    unfold lit, fin. rewrite geb_Fin, Qred_correct. lra.
  - unfold classify. rewrite Hgt. reflexivity.
Qed.

(** A crossing 0.3 to either side of the centerline is wide. *)
Lemma wide_crossing (ix iy : num) :
  (abs ix =? lit 0.3) = true -> hit_test ix iy = false.
Proof.
  intros H. destruct (eqb_lit _ _ H) as (p & Hp & Hval).
  unfold hit_test, inWidth. rewrite Hp, half_width_value.
  apply andb_false_iff. left. rewrite leb_Fin_false, Hval. reflexivity.
Qed.

(** The first crossing segment is the first that strikes, when it passes the
    hit test. *)
Lemma first_crossing_strikes (points : list TrajectoryPoint)
    (p1 p2 : TrajectoryPoint) :
  first_crossing points = Some (p1, p2) ->
  hit_test (impactX p1 p2) (impactY p1 p2) = true ->
  first_impact (segments points)
  = {| isHit := true;
       impactPoint :=
         Some (mkVector3D (impactX p1 p2) (impactY p1 p2) PITCH_LENGTH);
       partHit := Some (classify (impactX p1 p2) (impactY p1 p2)) |}.
Proof.
  intros Hfirst Hhit. rewrite first_impact_find.
  rewrite (find_refines _ strikes _ (p1, p2)
             (fun b H => proj1 (proj1 (andb_true_iff _ _) H)) Hfirst).
  - reflexivity.
  - destruct (find_some _ _ Hfirst) as [_ Hc]. unfold strikes.
    cbn [fst snd] in *. rewrite Hc, Hhit. reflexivity.
Qed.

End Zones.


(** C7: a reported hit carries a crossing point that passes the hit test,
    and its zone follows the priority order: [bails] (Top) when the height
    exceeds the stump height, otherwise [off] (right edge), [leg] (left
    edge) or [middle] (Center) by lateral proximity, [middle] when near
    none.  A path whose first crossing is at [x = 0], [y = 0.3] is a hit on
    [middle]; one whose first crossing is within the width, above the stump
    height and within the band of the bails is a hit on [bails]. *)
Theorem zone_classification :
  (forall points r,
      checkWicketImpact points = Returned r -> isHit r = true ->
      exists ix iy,
        impactPoint r = Some (mkVector3D ix iy PITCH_LENGTH)
        /\ hit_test ix iy = true
        /\ partHit r = Some (zone_by_priority ix iy))
  /\ (forall points p1 p2,
      first_crossing points = Some (p1, p2) ->
      (impactX p1 p2 =? lit 0) = true -> (impactY p1 p2 =? lit 0.3) = true ->
      checkWicketImpact points
      = Returned {| isHit := true;
                    impactPoint := Some (mkVector3D (impactX p1 p2)
                                           (impactY p1 p2) PITCH_LENGTH);
                    partHit := Some middle |})
  /\ (forall points p1 p2,
      first_crossing points = Some (p1, p2) ->
      inWidth (impactX p1 p2) = true ->
      (impactY p1 p2 >? STUMP_HEIGHT) = true ->
      (impactY p1 p2 <=? STUMP_HEIGHT + BAIL_HEIGHT) = true ->
      checkWicketImpact points
      = Returned {| isHit := true;
                    impactPoint := Some (mkVector3D (impactX p1 p2)
                                           (impactY p1 p2) PITCH_LENGTH);
                    partHit := Some bails |}).
Proof.
  split; [|split].
  - intros points r Hr Hhit.
    rewrite checkWicketImpact_first_impact, first_impact_find in Hr.
    destruct (find strikes (segments points)) as [[p1 p2]|] eqn:Hfind.
    + injection Hr as <-. exists (impactX p1 p2), (impactY p1 p2).
      destruct (find_some _ _ Hfind) as [_ Hs].
      apply andb_true_iff in Hs. cbn [fst snd] in Hs.
      cbn [impactPoint partHit]. rewrite classify_zone. tauto.
    + injection Hr as <-. discriminate.
  - intros points p1 p2 Hfirst Hx Hy.
    destruct (centre_strike _ _ Hx Hy) as [Hhit Hzone].
    rewrite checkWicketImpact_first_impact,
      (first_crossing_strikes _ _ _ Hfirst Hhit), Hzone. reflexivity.
  - intros points p1 p2 Hfirst Hw Hgt Hle.
    destruct (top_strike _ _ Hw Hgt Hle) as [Hhit Hzone].
    rewrite checkWicketImpact_first_impact,
      (first_crossing_strikes _ _ _ Hfirst Hhit), Hzone. reflexivity.
Qed.

Lemma zone_classification_witness :
  (exists ix iy,
      Some (mkVector3D (lit 0) (lit 0.3) PITCH_LENGTH)
      = Some (mkVector3D ix iy PITCH_LENGTH)
      /\ hit_test ix iy = true
      /\ Some middle = Some (zone_by_priority ix iy))
  /\ checkWicketImpact through_middle
     = Returned {| isHit := true;
                   impactPoint := Some (mkVector3D (lit 0) (lit 0.3)
                                          PITCH_LENGTH);
                   partHit := Some middle |}
  /\ checkWicketImpact over_off_stump
     = Returned {| isHit := true;
                   impactPoint := Some (mkVector3D (lit 0.1) (lit 0.72)
                                          PITCH_LENGTH);
                   partHit := Some bails |}.
Proof.
  destruct zone_classification as (Hzone & Hmid & Htop). split; [|split].
  - apply (Hzone through_middle
             {| isHit := true;
                impactPoint := Some (mkVector3D (lit 0) (lit 0.3)
                                       PITCH_LENGTH);
                partHit := Some middle |}); reflexivity.
  - apply (Hmid through_middle (sample 0 0.3 19 0) (sample 0 0.3 21 0.1));
      reflexivity.
  - apply (Htop over_off_stump (sample 0.1 0.72 19 0)
             (sample 0.1 0.72 21 0.1)); reflexivity.
Defined.

(** C8, as stated, fails: on [rebound] the first crossing is 0.3 wide of the
    centerline and fails the hit test, yet a hit is returned, from the
    second crossing. *)
Lemma first_miss_not_final :
  first_crossing rebound
    = Some (sample 0.3 0.3 19 0, sample 0.3 0.3 21 0.1)
  /\ (abs (impactX (sample 0.3 0.3 19 0) (sample 0.3 0.3 21 0.1)) =? lit 0.3)
     = true
  /\ hit_at_first_crossing rebound = false
  /\ checkWicketImpact rebound
     = Returned {| isHit := true;
                   impactPoint := Some (mkVector3D (lit 0.036) (lit 0.388)
                                          PITCH_LENGTH);
                   partHit := Some middle |}.
Proof. repeat split. Qed.

(** C8, amended: a path none of whose segments crosses the plane, and a
    path each of whose crossing points fails the hit test, gives
    [isHit = false], zone [none] and no impact point; a crossing point
    0.3 to either side of the centerline fails the hit test. *)
Theorem no_strike_no_impact :
  (forall points,
      (forall p1 p2, In (p1, p2) (segments points) ->
                     crosses_plane p1 p2 = false) ->
      checkWicketImpact points
      = Returned {| isHit := false; impactPoint := None;
                    partHit := Some none |})
  /\ (forall points,
      (forall p1 p2, In (p1, p2) (segments points) ->
                     crosses_plane p1 p2 = true ->
                     hit_test (impactX p1 p2) (impactY p1 p2) = false) ->
      checkWicketImpact points
      = Returned {| isHit := false; impactPoint := None;
                    partHit := Some none |})
  /\ (forall ix iy, (abs ix =? lit 0.3) = true -> hit_test ix iy = false).
Proof.
  assert (Hall : forall points,
      (forall p1 p2, In (p1, p2) (segments points) ->
                     crosses_plane p1 p2 = true ->
                     hit_test (impactX p1 p2) (impactY p1 p2) = false) ->
      checkWicketImpact points = Returned no_impact).
  { intros points H.
    rewrite checkWicketImpact_first_impact, first_impact_find.
    replace (find strikes (segments points)) with
      (@None (TrajectoryPoint * TrajectoryPoint)); [reflexivity|].
    symmetry. apply find_none_iff. intros [p1 p2] Hin.
    unfold strikes. cbn [fst snd].
    destruct (crosses_plane p1 p2) eqn:Hc; [|reflexivity].
    rewrite (H _ _ Hin Hc). reflexivity. }
  split; [|split].
  - intros points H. apply Hall. intros p1 p2 Hin Hc.
    rewrite (H _ _ Hin) in Hc. discriminate.
  - exact Hall.
  - exact wide_crossing.
Qed.

Lemma no_strike_no_impact_witness :
  checkWicketImpact short_path
  = Returned {| isHit := false; impactPoint := None; partHit := Some none |}
  /\ checkWicketImpact wide_path
     = Returned {| isHit := false; impactPoint := None;
                   partHit := Some none |}
  /\ hit_test (lit (-0.3)) (lit 0.3) = false.
Proof.
  destruct no_strike_no_impact as (Hnone & Hmiss & Hwide). split; [|split].
  - apply Hnone. simpl. intros p1 p2 [[= <- <-] | [[= <- <-] | []]];
      reflexivity.
  - apply Hmiss. simpl. intros p1 p2 [[= <- <-] | []] _. reflexivity.
  - apply Hwide. reflexivity.
Defined.


(** ** Trajectory predictor: the loop *)

Section Run.

Variables (vx vz step last_t predictionTime : num).

Local Abbreviation guard := (loop_guard last_t predictionTime).
Local Abbreviation body := (loop_body vx vz step).
Local Abbreviation loop := (while_loop vx vz step last_t predictionTime).
Local Abbreviation run := (emits vx vz step last_t predictionTime).

Lemma currentTime_body (s : PredictState) :
  currentTime (body s) = currentTime s + step.
Proof.
  unfold loop_body, push, bounce. destruct (currY _ <? _); reflexivity.
Qed.

Lemma currZ_body (s : PredictState) : currZ (body s) = currZ s + vz * step.
Proof.
  unfold loop_body, push, bounce. destruct (currY _ <? _); reflexivity.
Qed.

Lemma predictions_body (s : PredictState) :
  predictions (body s) = predictions s ++ [sample_of (body s)].
Proof.
  unfold loop_body, push, bounce, sample_of.
  destruct (currY _ <? _); reflexivity.
Qed.

(** A call of the loop that returns has pushed the samples of a run. *)
Lemma while_loop_emits (fuel : nat) :
  forall (s : PredictState) (out : list TrajectoryPoint),
    loop fuel s = Returned out ->
    exists pushed, out = predictions s ++ pushed /\ run s pushed.
Proof.
  assert (Hstop : forall s out,
             guard s = false -> Returned (predictions s) = Returned out ->
             exists pushed, out = predictions s ++ pushed /\ run s pushed).
  { intros s out Hg [= Hout]. subst out. exists [].
    rewrite app_nil_r. split; [reflexivity|]. constructor. exact Hg. }
  induction fuel as [|fuel IH]; intros s out; cbn [while_loop];
    destruct (guard s) eqn:Hg; try discriminate; auto.
  intros H. destruct (IH _ _ H) as (pushed & -> & Hrun).
  exists (sample_of (body s) :: pushed). split.
  - rewrite predictions_body, <- app_assoc. reflexivity.
  - constructor; assumption.
Qed.

(** The result does not depend on the fuel. *)
Lemma while_loop_fuel (fuel1 : nat) :
  forall (fuel2 : nat) (s : PredictState) (out1 out2 : list TrajectoryPoint),
    loop fuel1 s = Returned out1 -> loop fuel2 s = Returned out2 ->
    out1 = out2.
Proof.
  induction fuel1 as [|fuel1 IH]; intros [|fuel2] s out1 out2;
    cbn [while_loop]; destruct (guard s); try discriminate;
    try congruence.
  apply IH.
Qed.

(** The samples of a run end where the loop condition first fails. *)
Lemma emits_stops_at_limit (s : PredictState) (out : list TrajectoryPoint) :
  run s out ->
  stops_at_limit last_t predictionTime (currentTime s) (currZ s) out = true.
Proof.
  induction 1 as [s Hg | s out Hg Hrun IH]; cbn [stops_at_limit].
  - unfold within_limits. unfold loop_guard in Hg. rewrite Hg. reflexivity.
  - unfold within_limits. unfold loop_guard in Hg. rewrite Hg. exact IH.
Qed.

(** What the bounce leaves is not below the ground. *)
Lemma bounce_not_below_ground (s : PredictState) :
  (currY (bounce s) <? lit 0) = false.
Proof.
  unfold bounce. destruct (currY s <? lit 0) eqn:Hneg; [|exact Hneg].
  cbn [currY]. destruct (currY s) as [| | |q]; try discriminate.
  - reflexivity.
  - unfold lit, fin in Hneg. rewrite ltb_Fin, Qred_correct in Hneg.
    fin_arith. rewrite ltb_Fin_false, !Qred_correct. lra.
Qed.

Lemma currY_body (s : PredictState) :
  currY (body s) = currY (bounce (integrate vx vz step s)).
Proof. reflexivity. Qed.

Lemma emits_not_below_ground (s : PredictState)
    (out : list TrajectoryPoint) :
  run s out -> Forall (fun p => (y p <? lit 0) = false) out.
Proof.
  induction 1 as [s Hg | s out Hg Hrun IH]; constructor; [|exact IH].
  cbn [sample_of y]. rewrite currY_body. apply bounce_not_below_ground.
Qed.

End Run.

(** ** Trajectory predictor: order of timestamps *)

Section Timestamps.




End Timestamps.

(** ** Trajectory predictor: the call *)

Section Predict.


(** With two samples or more, the call is the loop started at the last
    sample with the two-point velocity estimate. *)
Lemma predictTrajectory_last_two (fuel : nat)
    (hist : list TrajectoryPoint) (prev last : TrajectoryPoint)
    (predictionTime step : num) :
  predictTrajectory fuel (hist ++ [prev; last]) predictionTime step
  = while_loop ((x last - x prev) / (t last - t prev))
      ((z last - z prev) / (t last - t prev)) step (t last) predictionTime
      fuel
      (mkPredictState (t last) (x last) (y last) (z last)
         ((y last - y prev) / (t last - t prev)) []).
Proof.
  unfold predictTrajectory. rewrite length_app. cbn [length].
  replace (length hist + 2 <? 2)%nat with false
    by (symmetry; apply Nat.ltb_ge; lia).
  rewrite !nth_error_app2 by lia.
  replace (length hist + 2 - 1 - length hist)%nat with 1%nat by lia.
  replace (length hist + 2 - 2 - length hist)%nat with 0%nat by lia.
  reflexivity.
Qed.


End Predict.

(** ** Double precision: rounding *)

Section Rounding64.

Local Open Scope Q_scope.

Lemma pow2_pos (e : Z) : 0 < pow2 e.
Proof. apply Qpower_0_lt. reflexivity. Qed.








Lemma round_half_even_ge (m : Q) (n : Z) :
  inject_Z n <= m -> (n <= round_half_even m)%Z.
Proof.
  intros H. pose proof (Qlt_floor m) as Hf.
  assert (Hn : (n < Qfloor m + 1)%Z) by (rewrite Zlt_Qlt; lra).
  unfold round_half_even.
  destruct (_ ?= _); [destruct (Z.even _)| |]; lia.
Qed.


Lemma round_half_even_error (m : Q) :
  Qabs (inject_Z (round_half_even m) - m) <= 1 # 2.
Proof.
  pose proof (Qfloor_le m) as Hlo. pose proof (Qlt_floor m) as Hhi.
  rewrite inject_Z_plus in Hhi. change (inject_Z 1) with 1 in Hhi.
  apply Qabs_Qle_condition. unfold round_half_even.
  destruct (Qcompare_spec (m - inject_Z (Qfloor m)) (1 # 2)) as [He|Hl|Hg];
    [destruct (Z.even _)| |];
    rewrite ?inject_Z_plus; change (inject_Z 1) with 1; lra.
Qed.



Lemma multiple_le_nearest (k : Z) (q : Q) :
  inject_Z k * spacing q <= q -> inject_Z k * spacing q <= nearest q.
Proof.
  intros H. unfold nearest, spacing in *. pose proof (pow2_pos (ulp_exponent q)).
  apply Qmult_le_compat_r; [|lra].
  rewrite <- Zle_Qle. apply round_half_even_ge.
  apply Qle_shift_div_l; assumption.
Qed.








Lemma nearest_nonneg (q : Q) : 0 < q -> 0 <= nearest q.
Proof.
  intros Hq. pose proof (pow2_pos (ulp_exponent q)).
  setoid_replace 0 with (inject_Z 0 * spacing q) by ring.
  apply multiple_le_nearest. unfold spacing. 
  setoid_replace (inject_Z 0 * pow2 (ulp_exponent q)) with 0 by ring. lra.
Qed.

(** Rounding is to nearest: the error is at most half the spacing. *)
Lemma nearest_error (q : Q) :
  Qabs (nearest q - q) <= spacing q * (1 # 2).
Proof.
  unfold nearest, spacing. pose proof (pow2_pos (ulp_exponent q)) as HP.
  set (P := pow2 (ulp_exponent q)) in *.
  setoid_replace (inject_Z (round_half_even (q / P)) * P - q)
    with ((inject_Z (round_half_even (q / P)) - q / P) * P)
    by (field; lra).
  rewrite Qabs_Qmult, (Qabs_pos P) by lra. rewrite (Qmult_comm P).
  apply Qmult_le_compat_r; [apply round_half_even_error | lra].
Qed.



(** Known doubles: the literals [0.1] and [9.81]; ties to even at [1e16],
    where the spacing is 2; overflow and the largest double; underflow and
    the least subnormal. *)
Lemma round64_examples :
  round64 0.1 = Fin (3602879701896397 # 36028797018963968)
  /\ round64 9.81 = Fin (5522539043063071 # 562949953421312)
  /\ round64 (10000000000000000 + 0.5) = Fin 10000000000000000
  /\ round64 (10000000000000000 + 1) = Fin 10000000000000000
  /\ round64 (10000000000000000 + 3) = Fin 10000000000000004
  /\ round64 (- (10000000000000000 + 3)) = Fin (- 10000000000000004)
  /\ round64 (pow2 1024 - pow2 970) = PInf
  /\ round64 (- (pow2 1024 - pow2 970)) = NInf
  /\ (round64 (pow2 1024 - pow2 970 - 1) =? Fin (pow2 1024 - pow2 971))%num = true
  /\ round64 (pow2 (-1075)) = Fin 0
  /\ (round64 (3 * pow2 (-1075)) =? Fin (pow2 (-1073)))%num = true.
Proof. vm_compute. repeat split. Qed.

End Rounding64.

Section Round64.




Lemma round_pos_cases (q : Q) :
  (round_pos q = PInf /\ (pow2 1024 <= nearest q)%Q)
  \/ (round_pos q = Fin (Qred (nearest q)) /\ (nearest q < pow2 1024)%Q).
Proof.
  unfold round_pos. cbv zeta.
  destruct (Qle_bool (pow2 1024) (nearest q)) eqn:H.
  - left. split; [reflexivity|]. apply Qle_bool_iff, H.
  - right. split; [reflexivity|]. apply Qnot_le_lt. intros Hc.
    apply Qle_bool_iff in Hc. congruence.
Qed.






Lemma round64_cases (q : Q) :
  ((q == 0)%Q /\ round64 q = Fin 0)
  \/ ((0 < q)%Q /\ round64 q = round_pos q)
  \/ ((q < 0)%Q /\ round64 q = neg (round_pos (- q))).
Proof.
  unfold round64. destruct (Qcompare_spec q 0) as [H|H|H]; auto.
Qed.








End Round64.

(** ** Trajectory predictor in rounded arithmetic *)

Section RoundedRun.

Variable rnd : Q -> num.
Variables (vx vz step last_t predictionTime : num).

Local Abbreviation guard := (Rounded.loop_guard rnd last_t predictionTime).
Local Abbreviation body := (Rounded.loop_body rnd vx vz step).
Local Abbreviation loop :=
  (Rounded.while_loop rnd vx vz step last_t predictionTime).
Local Abbreviation run := (Rounded.emits rnd vx vz step last_t predictionTime).



Lemma rounded_currY_body (s : PredictState) :
  currY (body s)
  = currY (Rounded.bounce rnd (Rounded.integrate rnd vx vz step s)).
Proof. reflexivity. Qed.

Lemma rounded_predictions_body (s : PredictState) :
  predictions (body s) = predictions s ++ [sample_of (body s)].
Proof.
  unfold Rounded.loop_body, push, Rounded.bounce, sample_of.
  destruct (currY _ <? _); reflexivity.
Qed.

(** A call of the loop that returns has pushed the samples of a run. *)
Lemma rounded_loop_emits (fuel : nat) :
  forall (s : PredictState) (out : list TrajectoryPoint),
    loop fuel s = Returned out ->
    exists pushed, out = predictions s ++ pushed /\ run s pushed.
Proof.
  assert (Hstop : forall s out,
             guard s = false -> Returned (predictions s) = Returned out ->
             exists pushed, out = predictions s ++ pushed /\ run s pushed).
  { intros s out Hg [= Hout]. subst out. exists [].
    rewrite app_nil_r. split; [reflexivity|]. constructor. exact Hg. }
  induction fuel as [|fuel IH]; intros s out; cbn [Rounded.while_loop];
    destruct (guard s) eqn:Hg; try discriminate; auto.
  intros H. destruct (IH _ _ H) as (pushed & -> & Hrun).
  exists (sample_of (body s) :: pushed). split.
  - rewrite rounded_predictions_body, <- app_assoc. reflexivity.
  - constructor; assumption.
Qed.



End RoundedRun.

Section RoundedCall.

Variable rnd : Q -> num.



End RoundedCall.

(** With no rounding, the rounded predictor is the exact one. *)
Section Exact.

Lemma exact_add (a b : num) : Rounded.add fin a b = a + b.
Proof. destruct a, b; reflexivity. Qed.

Lemma exact_sub (a b : num) : Rounded.sub fin a b = a - b.
Proof. destruct a, b; reflexivity. Qed.

Lemma exact_mul (a b : num) : Rounded.mul fin a b = a * b.
Proof. destruct a, b; reflexivity. Qed.

Lemma exact_neg (a : num) : Rounded.neg fin a = - a.
Proof. destruct a; reflexivity. Qed.

Lemma exact_div (a b : num) : Rounded.div fin a b = a / b.
Proof.
  destruct a as [| | |p], b as [| | |q]; try reflexivity.
  unfold Rounded.div, div. destruct (sgn q); reflexivity.
Qed.

Lemma exact_loop_guard (last_t predictionTime : num) (s : PredictState) :
  Rounded.loop_guard fin last_t predictionTime s
  = loop_guard last_t predictionTime s.
Proof.
  unfold Rounded.loop_guard, loop_guard. rewrite !exact_add. reflexivity.
Qed.

Lemma exact_loop_body (vx vz step : num) (s : PredictState) :
  Rounded.loop_body fin vx vz step s = loop_body vx vz step s.
Proof.
  unfold Rounded.loop_body, loop_body, Rounded.bounce, bounce,
    Rounded.integrate, integrate.
  cbn [currentTime currX currY currZ currVy predictions].
  rewrite !exact_add, !exact_sub, !exact_mul, !exact_neg. reflexivity.
Qed.

Lemma exact_while_loop (vx vz step last_t predictionTime : num)
    (fuel : nat) :
  forall s,
    Rounded.while_loop fin vx vz step last_t predictionTime fuel s
    = while_loop vx vz step last_t predictionTime fuel s.
Proof.
  induction fuel as [|fuel IH]; intros s;
    cbn [Rounded.while_loop while_loop]; rewrite exact_loop_guard;
    [reflexivity|].
  rewrite exact_loop_body, IH. reflexivity.
Qed.

Lemma exact_predictTrajectory (fuel : nat) (points : list TrajectoryPoint)
    (predictionTime step : num) :
  Rounded.predictTrajectory fin fuel points predictionTime step
  = predictTrajectory fuel points predictionTime step.
Proof.
  unfold Rounded.predictTrajectory, predictTrajectory.
  destruct (length points <? 2)%nat; [reflexivity|].
  destruct (nth_error points (length points - 1)); [|reflexivity].
  destruct (nth_error points (length points - 2)); [|reflexivity].
  rewrite exact_while_loop, !exact_div, !exact_sub. reflexivity.
Qed.

End Exact.

(** ** Trajectory predictor in doubles: timestamps *)

Section Doubles.



Lemma round64_nonneg (q : Q) : (0 <= q)%Q -> (round64 q <? Fin 0) = false.
Proof.
  intros Hq.
  destruct (round64_cases q) as [[_ ->]|[[H ->]|[H _]]]; [reflexivity| |lra].
  pose proof (nearest_nonneg q H) as H0.
  destruct (round_pos_cases q) as [[-> _]|[-> _]]; [reflexivity|].
  rewrite ltb_Fin_false, Qred_correct. exact H0.
Qed.



Variables (vx vz last_t predictionTime : num) (s : Q).
Hypothesis step_positive : (0 < s)%Q.

Local Abbreviation run :=
  (Rounded.emits round64 vx vz (Fin s) last_t predictionTime).


End Doubles.

(** ** Trajectory predictor in doubles: the ground *)

Section Ground64.

Variables (vx vz step last_t predictionTime : num).

Local Abbreviation run :=
  (Rounded.emits round64 vx vz step last_t predictionTime).

(** A height that is not below the ground is [>= 0] or [NaN]. *)
Lemma not_below_ground_cases (a : num) :
  (a <? lit 0) = false <-> (a >=? lit 0) = true \/ a = NaN.
Proof.
  destruct a as [| | |q].
  - split; auto.
  - split; auto.
  - split; [discriminate | intros [H|H]; discriminate].
  - unfold lit, fin. rewrite ltb_Fin_false, geb_Fin.
    split; [auto | intros [H|H]; [exact H | discriminate]].
Qed.

(** What the bounce leaves is not below the ground. *)
Lemma bounce64_not_below_ground (st : PredictState) :
  (currY (Rounded.bounce round64 st) <? lit 0) = false.
Proof.
  unfold Rounded.bounce.
  change (Rounded.lit round64 0) with (Fin 0). change (lit 0) with (Fin 0).
  destruct (currY st <? Fin 0) eqn:Hneg; [|exact Hneg].
  cbn [currY].
  assert (Hk : exists k, Rounded.lit round64 0.6 = Fin k /\ (0 < k)%Q).
  { eexists. split; [vm_compute; reflexivity | reflexivity]. }
  destruct Hk as (k & -> & Hk).
  assert (Hinf : Rounded.mul round64 PInf (Fin k) = PInf).
  { cbn [Rounded.mul mul]. unfold sgn, scale_inf.
    rewrite Qlt_alt in Hk. apply Qgt_alt in Hk. rewrite Hk. reflexivity. }
  destruct (currY st) as [| | |q]; try discriminate.
  - cbn [Rounded.neg neg]. rewrite Hinf. reflexivity.
  - rewrite ltb_Fin in Hneg. cbn [Rounded.neg].
    destruct (round64_cases (- q)) as [[H _]|[[H ->]|[H _]]]; try lra.
    pose proof (nearest_nonneg (- q) H) as H0.
    destruct (round_pos_cases (- q)) as [[-> _]|[-> _]]; [rewrite Hinf; reflexivity|].
    cbn [Rounded.mul]. apply round64_nonneg.
    rewrite Qred_correct. apply Qmult_le_0_compat; lra.
Qed.

Lemma emits64_not_below_ground (st : PredictState)
    (out : list TrajectoryPoint) :
  run st out -> Forall (fun p => (y p <? lit 0) = false) out.
Proof.
  induction 1 as [st Hg | st out Hg Hrun IH]; constructor; [|exact IH].
  cbn [sample_of y]. rewrite rounded_currY_body.
  apply bounce64_not_below_ground.
Qed.

End Ground64.

(** ** Trajectory predictor in doubles: a call that never returns *)

Section Stalled.

Variables (vx vz step last_t predictionTime : num) (c zc : Q).

(** The step is lost in the rounding of the time and of [z]. *)
Hypothesis time_stalls : Rounded.add round64 (Fin c) step = Fin c.
Hypothesis z_stalls :
  Rounded.add round64 (Fin zc) (Rounded.mul round64 vz step) = Fin zc.
Hypothesis before_horizon :
  (Fin c <? Rounded.add round64 last_t predictionTime) = true.
Hypothesis before_limit :
  (Fin zc
   <? Rounded.add round64 (Rounded.PITCH_LENGTH round64)
        (Rounded.lit round64 2)) = true.


End Stalled.

(** ** Trajectory predictor in doubles: a call that returns *)

Section Progress.


Variables (vx vz last_t predictionTime : num) (s l : Q).
Hypothesis limit_finite : Rounded.add round64 last_t predictionTime = Fin l.
Hypothesis step_spacing : (spacing l <= s)%Q.

Local Abbreviation guard := (Rounded.loop_guard round64 last_t predictionTime).
Local Abbreviation body := (Rounded.loop_body round64 vx vz (Fin s)).
Local Abbreviation run :=
  (Rounded.emits round64 vx vz (Fin s) last_t predictionTime).




End Progress.

Section DoublesCall.



End DoublesCall.





(** C9: on the history of the scenario, with horizon 0.6 and step 0.05, the
    call returns exactly [floor (0.6 / 0.05) = 12] samples, with strictly
    increasing [z].  In general no sample is pushed after one at which the
    elapsed time has reached the horizon or [z] has reached
    [PITCH_LENGTH + 2]: every returned sample but the final one is within
    both limits, and the final one is not. *)
Theorem prediction_stops_at_limits :
  (Z.to_nat (Qfloor (0.6 / 0.05)) = 12%nat
   /\ (exists out,
         predictTrajectory 12 scenario (lit 0.6) (lit 0.05) = Returned out)
   /\ (forall fuel out,
         predictTrajectory fuel scenario (lit 0.6) (lit 0.05) = Returned out ->
         length out = 12%nat /\ increasing_z out = true))
  /\ (forall fuel hist prev last predictionTime step out,
         predictTrajectory fuel (hist ++ [prev; last]) predictionTime step
         = Returned out ->
         stops_at_limit (t last) predictionTime (t last) (z last) out = true).
Proof.
  split; [split; [reflexivity|split]|].
  - eexists. vm_compute. reflexivity.
  - intros fuel out H.
    assert (H12 : exists out12,
               predictTrajectory 12 scenario (lit 0.6) (lit 0.05)
               = Returned out12
               /\ length out12 = 12%nat /\ increasing_z out12 = true)
      by (eexists; vm_compute; repeat split).
    destruct H12 as (out12 & Hret & Hlen & Hz).
    change scenario with ([] ++ scenario) in H, Hret.
    unfold scenario in H, Hret.
    rewrite predictTrajectory_last_two in H, Hret.
    rewrite (while_loop_fuel _ _ _ _ _ _ _ _ _ _ H Hret). auto.
  - intros fuel hist prev last predictionTime step out H.
    rewrite predictTrajectory_last_two in H.
    apply while_loop_emits in H. cbn [predictions app] in H.
    destruct H as (pushed & -> & Hrun).
    exact (emits_stops_at_limit _ _ _ _ _ _ _ Hrun).
Qed.

Lemma prediction_stops_at_limits_witness :
  (forall out,
      predictTrajectory 12 scenario (lit 0.6) (lit 0.05) = Returned out ->
      length out = 12%nat /\ increasing_z out = true)
  /\ stops_at_limit (lit 0.05) (lit 0.1) (lit 0.05) (lit 1)
       [sample 0.04 1.775475 2 0.1; sample 0.06 1.526425 3 0.15] = true.
Proof.
  destruct prediction_stops_at_limits as ((_ & _ & Hscenario) & Hstop).
  split.
  - intros out. apply Hscenario.
  - apply (Hstop 2%nat [] (sample 0 2.2 0 0) (sample 0.02 2.0 1.0 0.05)
             (lit 0.1) (lit 0.05)).
    reflexivity.
Defined.


(** C10, as stated, fails: two samples taken at the same instant make the
    velocity estimate [0/0]; the one sample returned has height [NaN],
    which is not [>= 0].  So it is with exact arithmetic and in doubles. *)
Lemma same_instant_height_nan :
  predictTrajectory 1 same_instant (lit 1) (lit 0.05)
  = Returned [ {| x := NaN; y := NaN; z := PInf; t := lit 0.05;
                  velocity := None |} ]
  /\ predictTrajectory64 1 same_instant (lit 1) (to_double (lit 0.05))
     = Returned [ {| x := NaN; y := NaN; z := PInf;
                     t := to_double (lit 0.05); velocity := None |} ]
  /\ (NaN >=? lit 0) = false.
Proof. split; [reflexivity|]. split; [vm_compute; reflexivity | reflexivity]. Qed.

(** C10, amended: for every history, horizon and step, no sample of a call
    that returns has [y < 0]; a height is [>= 0] or it is [NaN].  This
    holds of the predictor with exact arithmetic and of the predictor in
    the doubles of the source. *)
Theorem predictions_not_below_ground :
  (forall fuel points predictionTime step out,
      predictTrajectory fuel points predictionTime step = Returned out ->
      Forall (fun p => (y p <? lit 0) = false) out)
  /\ (forall fuel points predictionTime step out,
      predictTrajectory64 fuel points predictionTime step = Returned out ->
      Forall (fun p => (y p <? lit 0) = false) out).
Proof.
  split.
  - intros fuel points predictionTime step out H.
    unfold predictTrajectory in H.
    destruct (length points <? 2)%nat.
    { injection H as <-. constructor. }
    destruct (nth_error points (length points - 1)); [|discriminate].
    destruct (nth_error points (length points - 2)); [|discriminate].
    apply while_loop_emits in H. cbn [predictions app] in H.
    destruct H as (pushed & -> & Hrun).
    exact (emits_not_below_ground _ _ _ _ _ _ _ Hrun).
  - intros fuel points predictionTime step out H.
    unfold predictTrajectory64, Rounded.predictTrajectory in H.
    destruct (length points <? 2)%nat.
    { injection H as <-. constructor. }
    destruct (nth_error points (length points - 1)); [|discriminate].
    destruct (nth_error points (length points - 2)); [|discriminate].
    apply rounded_loop_emits in H. cbn [predictions app] in H.
    destruct H as (pushed & -> & Hrun).
    exact (emits64_not_below_ground _ _ _ _ _ _ _ Hrun).
Qed.

Lemma predictions_not_below_ground_witness :
  Forall (fun p => (y p <? lit 0) = false)
    [ {| x := NaN; y := NaN; z := PInf; t := lit 0.05; velocity := None |} ]
  /\ (exists out,
        predictTrajectory64 12 scenario64 (to_double (lit 0.6))
          (to_double DEFAULT_STEP) = Returned out
        /\ Forall (fun p => (y p <? lit 0) = false) out).
Proof.
  destruct predictions_not_below_ground as (Hexact & Hdouble). split.
  - apply (Hexact 1%nat same_instant (lit 1) (lit 0.05)). reflexivity.
  - eexists. split; [vm_compute; reflexivity|].
    apply (Hdouble 12%nat scenario64 (to_double (lit 0.6))
             (to_double DEFAULT_STEP)).
    vm_compute. reflexivity.
Defined.
